(** * Differential-pressure flow reference: a shallow embedding

    Source: [src/test/resources/diffpressure_reference.py].

    Python [float]s are embedded as real numbers: arithmetic is exact, so
    rounding, overflow and the IEEE special values are outside this
    development.  What is kept is everything that decides control flow:
    the order of evaluation, the exceptions Python raises
    ([ZeroDivisionError] on a zero divisor or on [0.0 ** negative],
    [ValueError] from [math.sqrt] on a negative argument, [TypeError] when a
    complex number reaches an ordering comparison), and the fact that a
    negative base with a fractional exponent produces a [complex]. *)

From Stdlib Require Import QArith Qreals.
From Stdlib Require Import Reals Lra Lia ZArith List Bool.
From Stdlib Require Import String Ascii DecimalString DecimalN.
Import ListNotations.

Local Open Scope R_scope.

(** ** Exceptions and results *)

Inductive exn : Type :=
| ZeroDivisionError
| ValueError
| TypeError.

Inductive res (A : Type) : Type :=
| Ret (a : A)
| Raise (e : exn).

Arguments Ret {A} a.
Arguments Raise {A} e.

Definition bind {A B : Type} (c : res A) (k : A -> res B) : res B :=
  match c with
  | Ret a => k a
  | Raise e => Raise e
  end.

Declare Scope py_scope.
Delimit Scope py_scope with py.

Notation "x <- c ;; k" := (bind c (fun x => k))
  (at level 61, c at next level, right associativity) : py_scope.

(** ** Python numbers

    A value is a [float] or a [complex].  No complex value is ever inspected
    by the program (the first operation that would do so raises), so only its
    type is recorded. *)

Inductive num : Type :=
| Flt (x : R)
| Cpx.

Definition Req_b (x y : R) : bool := if Req_dec_T x y then true else false.
Definition Rlt_b (x y : R) : bool := if Rlt_dec x y then true else false.
Definition Rle_b (x y : R) : bool := if Rle_dec x y then true else false.

Module Py.

Definition add (a b : num) : num :=
  match a, b with
  | Flt x, Flt y => Flt (x + y)
  | _, _ => Cpx
  end.

Definition sub (a b : num) : num :=
  match a, b with
  | Flt x, Flt y => Flt (x - y)
  | _, _ => Cpx
  end.

Definition mul (a b : num) : num :=
  match a, b with
  | Flt x, Flt y => Flt (x * y)
  | _, _ => Cpx
  end.

(** [a / b]: a zero [float] divisor raises, whatever the dividend is.  The
    only complex divisor the program builds is [1.0 - beta4 * tau2k] with
    [tau2k] complex, which is never zero. *)
Definition truediv (a b : num) : res num :=
  match b with
  | Flt y =>
      if Req_b y 0 then Raise ZeroDivisionError
      else match a with
           | Flt x => Ret (Flt (x / y))
           | Cpx => Ret Cpx
           end
  | Cpx => Ret Cpx
  end.

(** [y] is the image of an integer *)
Definition is_integer (y : R) : bool := Req_b y (IZR (Int_part y)).

(** [a ** b] on floats, in the order of the cases of [float.__pow__]:
    [x ** 0 = 1]; [0 ** y] is [0] for positive [y] and raises for negative
    [y]; a negative base with a fractional exponent gives a complex
    number, with an integral exponent the sign follows its parity. *)
Definition pow (a b : num) : res num :=
  match a, b with
  | Flt x, Flt y =>
      if Req_b y 0 then Ret (Flt 1)
      else if Req_b x 0 then
        (if Rlt_b y 0 then Raise ZeroDivisionError else Ret (Flt 0))
      else if Rlt_b x 0 then
        (if is_integer y then
           Ret (Flt (if Z.odd (Int_part y)
                     then - Rpower (- x) y else Rpower (- x) y))
         else Ret Cpx)
      else Ret (Flt (Rpower x y))
  | _, _ => Ret Cpx
  end.

(** [b > a] *)
Definition gt (b a : num) : res bool :=
  match b, a with
  | Flt y, Flt x => Ret (Rlt_b x y)
  | _, _ => Raise TypeError
  end.

(** the builtin [max(a, b)]: [a] unless [b > a] *)
Definition max (a b : num) : res num :=
  bind (gt b a) (fun c => Ret (if c then b else a)).

(** [math.sqrt] *)
Definition sqrt (a : num) : res num :=
  match a with
  | Flt x => if Rlt_b x 0 then Raise ValueError else Ret (Flt (R_sqrt.sqrt x))
  | Cpx => Raise TypeError
  end.

Definition rel_tol : R := 1 / 10 ^ 9.
Definition abs_tol : R := 0.

(** the test of [math.isclose(a, b)] on floats, with its default
    tolerances: equal, or within [rel_tol] of either argument, or within
    [abs_tol] *)
Definition isclose_b (x y : R) : bool :=
  Req_b x y
  || Rle_b (Rabs (y - x)) (Rabs (rel_tol * y))
  || Rle_b (Rabs (y - x)) (Rabs (rel_tol * x))
  || Rle_b (Rabs (y - x)) abs_tol.

(** [math.isclose(a, b)] *)
Definition isclose (a b : num) : res bool :=
  match a, b with
  | Flt x, Flt y => Ret (isclose_b x y)
  | _, _ => Raise TypeError
  end.

(** [math.pi] *)
Definition pi : num := Flt PI.

End Py.

Infix "+" := Py.add : py_scope.
Infix "-" := Py.sub : py_scope.
Infix "*" := Py.mul : py_scope.
Infix "/" := Py.truediv : py_scope.
Infix "**" := Py.pow (at level 30, right associativity) : py_scope.

(** ** The flow model *)

Section FlowModel.
Local Open Scope py_scope.

(** the literal [1e-30] *)
Definition floor30 : R := 1 / 10 ^ 30.

Definition calc_venturi (dp p rho kappa D d C : R) : res num :=
  beta <- Flt d / Flt D ;;
  beta4 <- beta ** Flt 4 ;;
  tau <- Flt p / (Flt p + Flt dp) ;;
  close <- Py.isclose tau (Flt 1) ;;
  if (close : bool) then Ret (Flt 0) else
  e2k <- Flt 2 / Flt kappa ;;
  tau2k <- tau ** e2k ;;
  n1 <- (Flt kappa * tau2k) / (Flt kappa - Flt 1) ;;
  n2 <- (n1 * (Flt 1 - beta4)) / (Flt 1 - beta4 * tau2k) ;;
  ek <- (Flt kappa - Flt 1) / Flt kappa ;;
  tauk <- tau ** ek ;;
  numerator <- (n2 * (Flt 1 - tauk)) / (Flt 1 - tau) ;;
  m <- Py.max numerator (Flt 0) ;;
  eps <- Py.sqrt m ;;
  r <- Py.max (Flt dp * Flt rho * Flt 2) (Flt 0) ;;
  root_term <- Py.sqrt r ;;
  b <- Py.max (Flt 1 - beta4) (Flt floor30) ;;
  sb <- Py.sqrt b ;;
  q <- Flt C / sb ;;
  q4 <- (q * eps * Py.pi) / Flt 4 ;;
  Ret (q4 * Flt d * Flt d * root_term * Flt 3600).

Definition calc_simplified (dp rho Cv : R) : res num :=
  m <- Py.max (Flt dp * Flt rho) (Flt 0) ;;
  s <- Py.sqrt m ;;
  Ret (Flt Cv * s).

End FlowModel.

(** ** Closed forms of the intermediate quantities of [calc_venturi]

    These name the values the local variables of [calc_venturi] hold on the
    path where every operand is a float and no divisor is zero. *)

Definition beta4_of (D d : R) : R := (d / D) ^ 4.

Definition tau_of (dp p : R) : R := p / (p + dp).

Definition tau2k_of (dp p kappa : R) : R := Rpower (tau_of dp p) (2 / kappa).

Definition numerator_of (dp p kappa D d : R) : R :=
  kappa * tau2k_of dp p kappa / (kappa - 1)
  * (1 - beta4_of D d) / (1 - beta4_of D d * tau2k_of dp p kappa)
  * (1 - Rpower (tau_of dp p) ((kappa - 1) / kappa)) / (1 - tau_of dp p).

Definition mass_flow_of (dp p rho kappa D d C : R) : R :=
  C / sqrt (Rmax (1 - beta4_of D d) floor30)
  * sqrt (Rmax (numerator_of dp p kappa D d) 0)
  * PI / 4 * d * d * sqrt (Rmax (dp * rho * 2) 0).

(** * The command line

    [main] builds an [argparse] parser with two sub-commands, each with its
    own required [--flag value] options of type [float], parses the
    arguments, calls the flow function and prints the value.  The part of
    [argparse] this configuration exercises is transcribed below: the
    classification of each argument as option or positional (exact option
    strings, [--flag=value], unique abbreviations, negative numbers), the
    left-to-right consumption of options with one value each, the help
    action, the check of required options, and the rejection of left-over
    arguments.  A later occurrence of an option overwrites an earlier one. *)

Module Argparse.

Local Open Scope string_scope.
Local Open Scope list_scope.

Inductive action : Type :=
| HelpAction
| StoreFloat (dest : string).

(** a parser: its program name and its option strings, in the order of
    registration ([-h] and [--help] come first) *)
Record parser : Type := mkParser {
  prog : string;
  option_string_actions : list (string * action);
  positionals_usage : string
}.

(** what a finished process leaves behind *)
Record outcome : Type := mkOutcome {
  exit_code : Z;
  stdout : string;
  stderr : string
}.

Definition newline : string := String (ascii_of_nat 10) EmptyString.

Fixpoint lookup {A : Type} (k : string) (l : list (string * A)) : option A :=
  match l with
  | [] => None
  | (k', v) :: l' => if String.eqb k k' then Some v else lookup k l'
  end.

(** [s.split('=', 1)] when ['=' in s] *)
Fixpoint split_at (c : ascii) (s : string) : option (string * string) :=
  match s with
  | EmptyString => None
  | String c' s' =>
      if Ascii.eqb c' c then Some (EmptyString, s')
      else match split_at c s' with
           | Some (a, b) => Some (String c' a, b)
           | None => None
           end
  end.

Fixpoint contains (c : ascii) (s : string) : bool :=
  match s with
  | EmptyString => false
  | String c' s' => Ascii.eqb c' c || contains c s'
  end.

Definition is_digit (c : ascii) : bool :=
  (48 <=? nat_of_ascii c)%nat && (nat_of_ascii c <=? 57)%nat.

Fixpoint all_digits (s : string) : bool :=
  match s with
  | EmptyString => true
  | String c s' => is_digit c && all_digits s'
  end.

Definition nonempty (s : string) : bool :=
  match s with
  | EmptyString => false
  | String _ _ => true
  end.

(** the parser's pattern for negative numbers: a dash and digits, or a
    dash, optional digits, a dot and digits *)
Definition negative_number_like (s : string) : bool :=
  match s with
  | String c rest =>
      Ascii.eqb c "-"
      && ((nonempty rest && all_digits rest)
          || match split_at "." rest with
             | Some (a, b) => all_digits a && nonempty b && all_digits b
             | None => false
             end)
  | EmptyString => false
  end.

(** the result of [_parse_optional] on one argument *)
Inductive optional_tuple : Type :=
| Positional
| Optional (a : option action) (option_string : string)
    (explicit_arg : option string)
| Ambiguous (matches : list string).

(** [_get_option_tuples]: the options an argument may abbreviate *)
Definition get_option_tuples (p : parser) (arg : string)
  : list (action * string * option string) :=
  match arg with
  | String _ (String c1 _) =>
      if Ascii.eqb c1 "-" then
        let '(option_prefix, explicit_arg) :=
          match split_at "=" arg with
          | Some (a, b) => (a, Some b)
          | None => (arg, None)
          end in
        flat_map
          (fun '(os, a) =>
             if String.prefix option_prefix os
             then [(a, os, explicit_arg)] else [])
          (option_string_actions p)
      else
        let short_option_prefix := substring 0 2 arg in
        let short_explicit_arg := substring 2 (String.length arg - 2) arg in
        flat_map
          (fun '(os, a) =>
             if String.eqb os short_option_prefix
             then [(a, os, Some short_explicit_arg)]
             else if String.prefix arg os then [(a, os, None)] else [])
          (option_string_actions p)
  | _ => []
  end.

Definition parse_optional (p : parser) (arg : string) : optional_tuple :=
  match arg with
  | EmptyString => Positional
  | String c rest =>
      if negb (Ascii.eqb c "-") then Positional
      else
        match lookup arg (option_string_actions p) with
        | Some a => Optional (Some a) arg None
        | None =>
            if negb (nonempty rest) then Positional
            else
              let by_equals :=
                match split_at "=" arg with
                | Some (option_string, explicit_arg) =>
                    match lookup option_string (option_string_actions p) with
                    | Some a => Some (a, option_string, explicit_arg)
                    | None => None
                    end
                | None => None
                end in
              match by_equals with
              | Some (a, option_string, explicit_arg) =>
                  Optional (Some a) option_string (Some explicit_arg)
              | None =>
                  match get_option_tuples p arg with
                  | [(a, option_string, explicit_arg)] =>
                      Optional (Some a) option_string explicit_arg
                  | (_ :: _ :: _) as tuples =>
                      Ambiguous (map (fun t => snd (fst t)) tuples)
                  | [] =>
                      if negative_number_like arg then Positional
                      else if contains " " arg then Positional
                      else Optional None arg None
                  end
              end
        end
  end.

(** the letter of the argument pattern: ['A'], ['-'] for the argument
    [--], or ['O'] with the option found *)
Inductive pattern : Type :=
| PA
| PDash
| PO (a : option action) (option_string : string)
    (explicit_arg : option string).

Definition double_dash : string := "--".

(** the first pass over the arguments; an ambiguous abbreviation is an
    error before any action is taken, and everything after [--] is an
    argument *)
Fixpoint classify (p : parser) (args : list string)
  : list (string * pattern) + string :=
  match args with
  | [] => inl []
  | a :: rest =>
      if String.eqb a double_dash
      then inl ((a, PDash) :: map (fun s => (s, PA)) rest)
      else
        match parse_optional p a with
        | Ambiguous ms =>
            inr ("ambiguous option: " ++ a ++ " could match "
                 ++ String.concat ", " ms)%string
        | Positional =>
            match classify p rest with
            | inl toks => inl ((a, PA) :: toks)
            | inr e => inr e
            end
        | Optional act os e =>
            match classify p rest with
            | inl toks => inl ((a, PO act os e) :: toks)
            | inr e' => inr e'
            end
        end
  end.

(** ['%r'] of a string (escapes left out) *)
Definition repr (s : string) : string := ("'" ++ s ++ "'")%string.

Definition upper_char (c : ascii) : ascii :=
  let n := nat_of_ascii c in
  if (97 <=? n)%nat && (n <=? 122)%nat then ascii_of_nat (n - 32) else c.

Fixpoint upper (s : string) : string :=
  match s with
  | EmptyString => EmptyString
  | String c s' => String (upper_char c) (upper s')
  end.

(** the usage line (never wrapped here) *)
Definition format_usage (p : parser) : string :=
  ("usage: " ++ prog p ++ " "
   ++ String.concat " "
        (map (fun '(os, a) =>
                match a with
                | HelpAction => ("[" ++ os ++ "]")%string
                | StoreFloat dest => (os ++ " " ++ upper dest)%string
                end)
             (filter (fun '(os, _) => negb (String.eqb os "--help"))
                     (option_string_actions p)))
   ++ positionals_usage p ++ newline)%string.

(** [parser.print_help()] and exit: the text is abbreviated to the usage *)
Definition help_exit (p : parser) : outcome :=
  mkOutcome 0 (format_usage p) EmptyString.

(** [parser.error(message)]: usage and message on the error stream, exit
    status 2 *)
Definition error (p : parser) (message : string) : outcome :=
  mkOutcome 2 EmptyString
    (format_usage p ++ prog p ++ ": error: " ++ message ++ newline)%string.

Definition namespace : Type := list (string * Q).

Definition setattr (ns : namespace) (dest : string) (v : Q) : namespace :=
  (dest, v) :: ns.

Definition getattr (ns : namespace) (dest : string) : option Q :=
  lookup dest ns.

Fixpoint all_h (s : string) : bool :=
  match s with
  | EmptyString => true
  | String c s' => Ascii.eqb c "h" && all_h s'
  end.

(** the help option met with an explicit argument: [-hh] is [-h -h], every
    other attached argument is refused *)
Definition help_with_explicit (p : parser) (os e : string) : outcome :=
  if String.eqb os "-h" && nonempty e && all_h e then help_exit p
  else error p ("argument -h/--help: ignored explicit argument " ++ repr e).

Section Consume.

(** Python's [float(text)], on the texts that denote a finite number *)
Variable float_of : string -> option Q.

Inductive consumed : Type :=
| Done (ns : namespace) (extras : list string)
| Stop (o : outcome).

(** one value for a [type=float] option *)
Definition store (p : parser) (os dest v : string) (ns : namespace)
  : namespace + outcome :=
  match float_of v with
  | Some q => inl (setattr ns dest q)
  | None =>
      inr (error p ("argument " ++ os ++ ": invalid float value: " ++ repr v))
  end.

(** the consumption of a parser without positionals: options take their
    value, everything else is left over *)
Fixpoint consume (p : parser) (toks : list (string * pattern))
    (ns : namespace) (extras : list string) : consumed :=
  match toks with
  | [] => Done ns extras
  | (a, PO None _ _) :: rest => consume p rest ns (extras ++ [a])
  | (a, PA) :: rest => consume p rest ns (extras ++ [a])
  | (a, PDash) :: rest => consume p rest ns (extras ++ [a])
  | (_, PO (Some HelpAction) os None) :: _ => Stop (help_exit p)
  | (_, PO (Some HelpAction) os (Some e)) :: _ =>
      Stop (help_with_explicit p os e)
  | (_, PO (Some (StoreFloat dest)) os (Some e)) :: rest =>
      match store p os dest e ns with
      | inl ns' => consume p rest ns' extras
      | inr o => Stop o
      end
  | (_, PO (Some (StoreFloat dest)) os None) :: rest =>
      match rest with
      | (v, PA) :: rest' =>
          match store p os dest v ns with
          | inl ns' => consume p rest' ns' extras
          | inr o => Stop o
          end
      | _ => Stop (error p ("argument " ++ os ++ ": expected one argument"))
      end
  end.

Definition parse_known_args (p : parser) (args : list string) : consumed :=
  match classify p args with
  | inr message => Stop (error p message)
  | inl toks => consume p toks [] []
  end.

(** the required options that were not seen, by option string *)
Definition missing_required (p : parser) (ns : namespace) : list string :=
  flat_map
    (fun '(os, a) =>
       match a with
       | StoreFloat dest =>
           match getattr ns dest with
           | Some _ => []
           | None => [os]
           end
       | HelpAction => []
       end)
    (option_string_actions p).

(** the top-level parser: [-h] and the required sub-command *)
Definition top_parser (prog : string) : parser :=
  mkParser prog [("-h", HelpAction); ("--help", HelpAction)]
    " {venturi,simplified} ...".

Definition venturi_parser (prog : string) : parser :=
  mkParser (prog ++ " venturi")
    [("-h", HelpAction); ("--help", HelpAction);
     ("--dp", StoreFloat "dp"); ("--p", StoreFloat "p");
     ("--rho", StoreFloat "rho"); ("--kappa", StoreFloat "kappa");
     ("--D", StoreFloat "D"); ("--d", StoreFloat "d");
     ("--C", StoreFloat "C")]
    EmptyString.

Definition simplified_parser (prog : string) : parser :=
  mkParser (prog ++ " simplified")
    [("-h", HelpAction); ("--help", HelpAction);
     ("--dp", StoreFloat "dp"); ("--rho", StoreFloat "rho");
     ("--Cv", StoreFloat "Cv")]
    EmptyString.

Definition subparsers (prog : string) : list (string * parser) :=
  [("venturi", venturi_parser prog); ("simplified", simplified_parser prog)].

(** what the top-level parser finds before the sub-command takes over *)
Inductive found : Type :=
| Command (name : string) (rest : list string) (extras : list string)
| NoCommand (extras : list string)
| Halt (o : outcome).

Fixpoint find_command (p : parser) (toks : list (string * pattern))
    (extras : list string) : found :=
  match toks with
  | [] => NoCommand extras
  | (a, PA) :: rest => Command a (map fst rest) extras
  | (a, PO None _ _) :: rest => find_command p rest (extras ++ [a])
  | (_, PO (Some HelpAction) os None) :: _ => Halt (help_exit p)
  | (_, PO (Some HelpAction) os (Some e)) :: _ =>
      Halt (help_with_explicit p os e)
  | (_, PO (Some (StoreFloat _)) os _) :: _ =>
      Halt (error p ("argument " ++ os ++ ": expected one argument"))
  | (a, PDash) :: [] => NoCommand (extras ++ [a])
  | (a, PDash) :: ((_ :: _) as rest) => Command a (map fst rest) extras
  end.

Inductive parsed : Type :=
| Namespace (command : string) (ns : namespace)
| Exit (o : outcome).

Definition command_required : string :=
  "the following arguments are required: command".

Definition parse_args (prog : string) (args : list string) : parsed :=
  let top := top_parser prog in
  match classify top args with
  | inr message => Exit (error top message)
  | inl toks =>
      match find_command top toks [] with
      | Halt o => Exit o
      | NoCommand _ => Exit (error top command_required)
      | Command name rest extras =>
          match lookup name (subparsers prog) with
          | None =>
              Exit (error top
                      ("argument command: invalid choice: " ++ repr name
                       ++ " (choose from 'venturi', 'simplified')"))
          | Some sub =>
              match parse_known_args sub rest with
              | Stop o => Exit o
              | Done ns extras' =>
                  match missing_required sub ns with
                  | (_ :: _) as ms =>
                      Exit (error sub
                              ("the following arguments are required: "
                               ++ String.concat ", " ms))
                  | [] =>
                      match extras ++ extras' with
                      | [] => Namespace name ns
                      | (_ :: _) as ex =>
                          Exit (error top
                                  ("unrecognized arguments: "
                                   ++ String.concat " " ex))
                      end
                  end
              end
          end
      end
  end.

End Consume.

End Argparse.

(** ** Printing and [main] *)

Module Cli.

Import Argparse.
Local Open Scope string_scope.
Local Open Scope list_scope.

(** the nearest integer, ties to even *)
Definition round_half_even (y : R) : Z :=
  let f := Int_part y in
  let r := (y - IZR f)%R in
  if Rlt_b r (1 / 2) then f
  else if Rlt_b (1 / 2) r then (f + 1)%Z
  else if Z.even f then f else (f + 1)%Z.

Definition digit_char (n : Z) : ascii :=
  ascii_of_nat (48 + Z.to_nat (n mod 10)).

(** the last [k] decimal digits of [n], zero padded *)
Fixpoint digits_padded (k : nat) (n : Z) : string :=
  match k with
  | O => EmptyString
  | S k' => (digits_padded k' (n / 10) ++ String (digit_char n) EmptyString)%string
  end.

(** the decimal digits of a natural number, at least one *)
Definition digits (n : Z) : string :=
  NilZero.string_of_uint (N.to_uint (Z.to_N n)).

(** the format specification [.12f] on a float: sign, integer digits, a
    dot, twelve digits *)
Definition format_12f (x : R) : string :=
  let n := round_half_even (Rabs x * 10 ^ 12) in
  ((if Rlt_b x 0 then "-" else "")
   ++ digits (n / 10 ^ 12) ++ "." ++ digits_padded 12 (n mod 10 ^ 12))%string.

(** no complex value reaches [print] (see [calc_venturi_returns_float]);
    its text is not modelled *)
Definition format_value (v : num) : string :=
  match v with
  | Flt x => format_12f x
  | Cpx => "(complex)"
  end.

Definition exn_name (e : exn) : string :=
  match e with
  | ZeroDivisionError => "ZeroDivisionError"
  | ValueError => "ValueError"
  | TypeError => "TypeError"
  end.

(** an uncaught exception: the traceback goes to the error stream and the
    exit status is 1 *)
Definition uncaught (e : exn) : outcome :=
  mkOutcome 1 EmptyString
    ("Traceback (most recent call last):" ++ newline ++ exn_name e ++ newline).

(** [args.<dest>] as a float; an attribute left at [None] would make the
    first arithmetic operation raise [TypeError] *)
Definition attr (ns : namespace) (dest : string) : res R :=
  match getattr ns dest with
  | Some q => Ret (Q2R q)
  | None => Raise TypeError
  end.

Definition run_command (command : string) (ns : namespace) : res num :=
  if String.eqb command "venturi" then
    (dp <- attr ns "dp" ;;
     p <- attr ns "p" ;;
     rho <- attr ns "rho" ;;
     kappa <- attr ns "kappa" ;;
     D <- attr ns "D" ;;
     d <- attr ns "d" ;;
     C <- attr ns "C" ;;
     calc_venturi dp p rho kappa D d C)%py
  else if String.eqb command "simplified" then
    (dp <- attr ns "dp" ;;
     rho <- attr ns "rho" ;;
     Cv <- attr ns "Cv" ;;
     calc_simplified dp rho Cv)%py
  else Raise ValueError.

Section Main.

Variable float_of : string -> option Q.

Definition main (prog : string) (args : list string) : outcome :=
  match parse_args float_of prog args with
  | Exit o => o
  | Namespace command ns =>
      match run_command command ns with
      | Ret value =>
          mkOutcome 0 (format_value value ++ newline)%string EmptyString
      | Raise e => uncaught e
      end
  end.

End Main.

(** ** A reader for plain decimal literals

    [float()] accepts more than this (exponents, [inf], [nan], ...); the
    reader below covers an optional sign, digits and an optional fraction,
    and stands in for it on concrete command lines. *)

Fixpoint digits_value (s : string) (acc : Z) : Z :=
  match s with
  | EmptyString => acc
  | String c s' => digits_value s' (10 * acc + (Z.of_nat (nat_of_ascii c) - 48))
  end.

Definition unsigned_decimal (s : string) : option Q :=
  match split_at "." s with
  | None =>
      if nonempty s && all_digits s
      then Some (inject_Z (digits_value s 0)) else None
  | Some (a, b) =>
      if all_digits a && all_digits b && (nonempty a || nonempty b)
      then Some (Qmake (digits_value (a ++ b)%string 0)
                       (Z.to_pos (10 ^ Z.of_nat (String.length b))))
      else None
  end.

Definition read_decimal (s : string) : option Q :=
  match s with
  | String c rest =>
      if Ascii.eqb c "-" then option_map Qopp (unsigned_decimal rest)
      else if Ascii.eqb c "+" then unsigned_decimal rest
      else unsigned_decimal s
  | EmptyString => None
  end.

End Cli.

(** ** Reading a command line against the parsers

    The notions the claims about the command line are stated with: the
    sub-command of an invocation, the flags it gives, the texts it gives
    them, and whether an argument asks for help. *)

Module Invocation.

Import Argparse Cli.
Local Open Scope string_scope.
Local Open Scope list_scope.






Section Bad.

Variable float_of : string -> option Q.


End Bad.




End Invocation.

(** ** Further notions for reading a command line *)

Module Reading.

Import Argparse Cli Invocation.
Local Open Scope string_scope.
Local Open Scope list_scope.

(** the argument can be the value of a flag: it is not [--] and the parser
    classifies it as an argument, not as an option *)
Definition is_value (p : parser) (a : string) : bool :=
  negb (String.eqb a double_dash)
  && match parse_optional p a with
     | Positional => true
     | _ => false
     end.


(** a success exit: status 0, text on the output stream, nothing on the
    error stream *)
Definition is_success_exit (o : outcome) : Prop :=
  exit_code o = 0%Z /\ stdout o <> "" /\ stderr o = "".

(** a failure exit: status 1 or 2, nothing on the output stream, a message
    on the error stream *)
Definition is_failure_exit (o : outcome) : Prop :=
  (exit_code o = 1%Z \/ exit_code o = 2%Z)
  /\ stdout o = "" /\ stderr o <> "".

(** what [print] writes for a result of the flow functions, and what is
    left when they raise *)
Definition report (r : res num) : outcome :=
  match r with
  | Ret v => mkOutcome 0 (format_value v ++ newline)%string EmptyString
  | Raise e => uncaught e
  end.

End Reading.

(** * Facts about the Python operations *)

Lemma Req_b_true x y : x = y -> Req_b x y = true.
Proof. intros ->. unfold Req_b. destruct (Req_dec_T y y); congruence. Qed.

Lemma Req_b_false x y : x <> y -> Req_b x y = false.
Proof. intros H. unfold Req_b. destruct (Req_dec_T x y); congruence. Qed.

Lemma Rlt_b_true x y : x < y -> Rlt_b x y = true.
Proof. intros H. unfold Rlt_b. destruct (Rlt_dec x y); [reflexivity | contradiction]. Qed.

Lemma Rlt_b_false x y : y <= x -> Rlt_b x y = false.
Proof. intros H. unfold Rlt_b. destruct (Rlt_dec x y); [lra | reflexivity]. Qed.

Lemma Rle_b_true x y : x <= y -> Rle_b x y = true.
Proof. intros H. unfold Rle_b. destruct (Rle_dec x y); [reflexivity | contradiction]. Qed.

Lemma Rle_b_false x y : y < x -> Rle_b x y = false.
Proof. intros H. unfold Rle_b. destruct (Rle_dec x y); [lra | reflexivity]. Qed.

Lemma truediv_flt x y : y <> 0 -> Py.truediv (Flt x) (Flt y) = Ret (Flt (x / y)).
Proof. intros H. unfold Py.truediv. now rewrite Req_b_false. Qed.

Lemma truediv_zero a : Py.truediv a (Flt 0) = Raise ZeroDivisionError.
Proof. unfold Py.truediv. now rewrite Req_b_true. Qed.



Lemma max_flt x y : Py.max (Flt x) (Flt y) = Ret (Flt (Rmax x y)).
Proof.
  unfold Py.max, Py.gt; simpl. destruct (Rlt_dec x y) as [H | H].
  - rewrite Rlt_b_true by assumption. now rewrite Rmax_right by lra.
  - rewrite Rlt_b_false by lra. now rewrite Rmax_left by lra.
Qed.

Lemma max_cpx b : Py.max Cpx b = Raise TypeError.
Proof. unfold Py.max, Py.gt. now destruct b. Qed.

Lemma sqrt_flt x : 0 <= x -> Py.sqrt (Flt x) = Ret (Flt (sqrt x)).
Proof. intros H. unfold Py.sqrt. now rewrite Rlt_b_false. Qed.

Lemma sqrt_max0 x : Py.sqrt (Flt (Rmax x 0)) = Ret (Flt (sqrt (Rmax x 0))).
Proof. apply sqrt_flt, Rmax_r. Qed.

Lemma floor30_pos : 0 < floor30.
Proof. unfold floor30. apply Rdiv_lt_0_compat; [lra | apply pow_lt; lra]. Qed.

Lemma sqrt_max_floor x : 0 < sqrt (Rmax x floor30).
Proof.
  apply sqrt_lt_R0. pose proof floor30_pos. pose proof (Rmax_r x floor30). lra.
Qed.

Lemma Int_part_IZR z : Int_part (IZR z) = z.
Proof. symmetry. apply Int_part_spec. lra. Qed.

Lemma is_integer_IZR z : Py.is_integer (IZR z) = true.
Proof. unfold Py.is_integer. rewrite Int_part_IZR. now apply Req_b_true. Qed.

Lemma pow_flt_pos x y :
  0 < x -> y <> 0 -> Py.pow (Flt x) (Flt y) = Ret (Flt (Rpower x y)).
Proof.
  intros Hx Hy. unfold Py.pow.
  rewrite (Req_b_false y 0), (Req_b_false x 0), (Rlt_b_false x 0) by lra.
  reflexivity.
Qed.


Lemma Rpower_4 x : 0 < x -> Rpower x 4 = x ^ 4.
Proof.
  intros Hx. replace 4 with (INR 4) by (simpl; lra). now apply Rpower_pow.
Qed.

(** [beta ** 4] is the fourth power, whatever the sign of [beta] *)
Lemma pow_4 x : Py.pow (Flt x) (Flt 4) = Ret (Flt (x ^ 4)).
Proof.
  unfold Py.pow. rewrite (Req_b_false 4 0) by lra.
  destruct (Rtotal_order x 0) as [Hx | [-> | Hx]].
  - rewrite (Req_b_false x 0), (Rlt_b_true x 0) by lra.
    rewrite (is_integer_IZR 4), (Int_part_IZR 4). simpl Z.odd. cbv iota.
    rewrite Rpower_4 by lra. do 2 f_equal. ring.
  - rewrite Req_b_true by reflexivity. rewrite Rlt_b_false by lra.
    do 2 f_equal. ring.
  - rewrite (Req_b_false x 0), (Rlt_b_false x 0) by lra.
    now rewrite Rpower_4.
Qed.

Lemma isclose_b_refl x : Py.isclose_b x x = true.
Proof. unfold Py.isclose_b. now rewrite Req_b_true. Qed.

(** outside the guard the two arguments differ *)
Lemma isclose_b_false_neq x y : Py.isclose_b x y = false -> x <> y.
Proof.
  intros H ->. now rewrite isclose_b_refl in H.
Qed.

(** * The two paths of [calc_venturi] *)

Ltac py_step :=
  cbn [bind Py.add Py.sub Py.mul Py.isclose Py.pi].

(** the path through the guard [math.isclose(tau, 1.0)] *)
Lemma calc_venturi_guard dp p rho kappa D d C :
  D <> 0 -> p + dp <> 0 ->
  Py.isclose_b (tau_of dp p) 1 = true ->
  calc_venturi dp p rho kappa D d C = Ret (Flt 0).
Proof.
  intros HD Hp Hc. unfold calc_venturi.
  rewrite truediv_flt by assumption. py_step.
  rewrite pow_4. py_step.
  rewrite truediv_flt by assumption. py_step.
  fold (tau_of dp p). now rewrite Hc.
Qed.

(** the path past the guard, when every divisor is non-zero and [tau] is
    positive *)
Lemma calc_venturi_regular dp p rho kappa D d C :
  D <> 0 -> p + dp <> 0 ->
  Py.isclose_b (tau_of dp p) 1 = false ->
  kappa <> 0 -> kappa <> 1 ->
  0 < tau_of dp p ->
  beta4_of D d * tau2k_of dp p kappa <> 1 ->
  calc_venturi dp p rho kappa D d C
  = Ret (Flt (mass_flow_of dp p rho kappa D d C * 3600)).
Proof.
  intros HD Hp Hc Hk0 Hk1 Htau Hsing.
  pose proof (isclose_b_false_neq _ _ Hc) as Hne.
  unfold calc_venturi.
  rewrite truediv_flt by assumption. py_step.
  rewrite pow_4. py_step.
  rewrite truediv_flt by assumption. py_step.
  fold (tau_of dp p). rewrite Hc.
  rewrite truediv_flt by assumption. py_step.
  rewrite pow_flt_pos; [ | assumption | ].
  2:{ apply Rmult_integral_contrapositive_currified; [lra | now apply Rinv_neq_0_compat]. }
  py_step.
  rewrite truediv_flt by lra. py_step.
  fold (beta4_of D d). fold (tau2k_of dp p kappa).
  rewrite truediv_flt by lra. py_step.
  rewrite truediv_flt by assumption. py_step.
  rewrite pow_flt_pos; [ | assumption | ].
  2:{ apply Rmult_integral_contrapositive_currified; [lra | now apply Rinv_neq_0_compat]. }
  py_step.
  rewrite truediv_flt by lra. py_step.
  rewrite max_flt. py_step. rewrite sqrt_max0. py_step.
  rewrite max_flt. py_step. rewrite sqrt_max0. py_step.
  rewrite max_flt. py_step.
  rewrite sqrt_flt by (pose proof floor30_pos; pose proof (Rmax_r (1 - beta4_of D d) floor30); lra).
  py_step.
  rewrite truediv_flt by (pose proof (sqrt_max_floor (1 - beta4_of D d)); lra).
  py_step.
  rewrite truediv_flt by lra. py_step.
  reflexivity.
Qed.





(** ** Deciding the guard on concrete and bounded arguments *)

Lemma rel_tol_bounds : 0 < Py.rel_tol < 1 / 1000.
Proof.
  unfold Py.rel_tol. split.
  - apply Rdiv_lt_0_compat; [lra | apply pow_lt; lra].
  - apply Rmult_lt_reg_r with (10 ^ 9); [apply pow_lt; lra | ].
    unfold Rdiv. rewrite Rmult_assoc, Rinv_l by (apply pow_nonzero; lra). lra.
Qed.

(** a [tau] whose distance to 1 is more than a thousandth of both [tau] and
    1 is outside the guard *)
Lemma isclose_b_far t :
  Rabs t / 1000 <= Rabs (1 - t) -> 1 / 1000 <= Rabs (1 - t) ->
  Py.isclose_b t 1 = false.
Proof.
  intros H1 H2. pose proof rel_tol_bounds as [Hr0 Hr1].
  assert (Hne : t <> 1).
  { intros ->. replace (1 - 1) with 0 in H2 by ring. rewrite Rabs_R0 in H2. lra. }
  unfold Py.isclose_b, Py.abs_tol.
  rewrite Req_b_false by assumption.
  rewrite !Rabs_mult, (Rabs_pos_eq Py.rel_tol), Rabs_R1 by lra.
  pose proof (Rabs_pos t). pose proof (Rabs_pos (1 - t)).
  rewrite !Rle_b_false; [reflexivity | lra | nra | nra].
Qed.

Lemma isclose_b_below t : 0 < t -> t <= 9 / 10 -> Py.isclose_b t 1 = false.
Proof.
  intros H0 H1. apply isclose_b_far.
  - rewrite (Rabs_pos_eq t), (Rabs_pos_eq (1 - t)) by lra. lra.
  - rewrite (Rabs_pos_eq (1 - t)) by lra. lra.
Qed.








(** ** Sizes of the intermediate quantities on valid inputs *)

Lemma Rpower_pos x y : 0 < Rpower x y.
Proof. unfold Rpower. apply exp_pos. Qed.

Lemma Rpower_lt_1 x y : 0 < x < 1 -> 0 < y -> Rpower x y < 1.
Proof.
  intros [H0 H1] Hy. unfold Rpower. rewrite <- exp_0.
  apply exp_increasing.
  pose proof (ln_increasing x 1 H0 H1) as Hl. rewrite ln_1 in Hl. nra.
Qed.

Lemma Rpower_le_1 x y : 0 < x <= 1 -> 0 < y -> Rpower x y <= 1.
Proof.
  intros [H0 [H1 | ->]] Hy.
  - left. now apply Rpower_lt_1.
  - unfold Rpower. rewrite ln_1, Rmult_0_r, exp_0. lra.
Qed.

Lemma div_unit a b : 0 < a < b -> 0 < a / b < 1.
Proof.
  intros [Ha Hab]. split; [apply Rdiv_lt_0_compat; lra | ].
  apply Rmult_lt_reg_r with b; [lra | ].
  unfold Rdiv. rewrite Rmult_assoc, Rinv_l by lra. lra.
Qed.

Lemma beta4_unit D d : 0 < d < D -> 0 < beta4_of D d < 1.
Proof.
  intros H. unfold beta4_of. pose proof (div_unit d D H) as [H0 H1].
  split; [apply pow_lt; assumption | ].
  assert (0 < d / D * (d / D) < 1) by nra.
  replace ((d / D) ^ 4) with (d / D * (d / D) * (d / D * (d / D))) by ring.
  nra.
Qed.

Lemma tau_pos dp p : 0 < p -> 0 < p + dp -> 0 < tau_of dp p.
Proof. intros. unfold tau_of. now apply Rdiv_lt_0_compat. Qed.

Lemma tau_le_1 dp p : 0 < p -> 0 <= dp -> tau_of dp p <= 1.
Proof.
  intros Hp Hdp. unfold tau_of.
  apply Rmult_le_reg_r with (p + dp); [lra | ].
  unfold Rdiv. rewrite Rmult_assoc, Rinv_l by lra. lra.
Qed.


Lemma exponent_2k_pos kappa : 1 < kappa -> 0 < 2 / kappa.
Proof. intros. apply Rdiv_lt_0_compat; lra. Qed.


(** with a non-negative differential pressure the throat term is regular *)
Lemma regular_of_nonneg_dp dp p kappa D d :
  0 < d < D -> 0 < p -> 1 < kappa -> 0 <= dp ->
  beta4_of D d * tau2k_of dp p kappa <> 1.
Proof.
  intros Hd Hp Hk Hdp.
  pose proof (beta4_unit D d Hd) as [Hb0 Hb1].
  assert (Ht : 0 < tau_of dp p <= 1)
    by (split; [apply tau_pos; lra | now apply tau_le_1]).
  pose proof (Rpower_le_1 _ _ Ht (exponent_2k_pos kappa Hk)) as Hle.
  pose proof (Rpower_pos (tau_of dp p) (2 / kappa)) as Hpos.
  unfold tau2k_of. nra.
Qed.





(** * The flow model: claims *)







(** C3: [calc_simplified(dp, rho, Cv)] is [Cv * sqrt(dp * rho)] when
    [dp * rho >= 0] and 0 when [dp * rho < 0]; it never raises. *)
Theorem calc_simplified_spec (dp rho Cv : R) :
  (0 <= dp * rho ->
   calc_simplified dp rho Cv = Ret (Flt (Cv * sqrt (dp * rho))))
  /\ (dp * rho < 0 -> calc_simplified dp rho Cv = Ret (Flt 0))
  /\ (exists v : R, calc_simplified dp rho Cv = Ret (Flt v)).
Proof.
  assert (E : calc_simplified dp rho Cv
              = Ret (Flt (Cv * sqrt (Rmax (dp * rho) 0)))).
  { unfold calc_simplified. py_step. rewrite max_flt. py_step.
    rewrite sqrt_max0. reflexivity. }
  repeat split.
  - intros H. rewrite E, Rmax_left by assumption. reflexivity.
  - intros H. rewrite E, Rmax_right, sqrt_0 by lra. do 2 f_equal. ring.
  - eexists. exact E.
Qed.

Lemma calc_simplified_spec_witness :
  calc_simplified 1 4 3 = Ret (Flt (3 * sqrt (1 * 4)))
  /\ calc_simplified (-1) 4 3 = Ret (Flt 0).
Proof.
  split.
  - apply (proj1 (calc_simplified_spec 1 4 3)). lra.
  - apply (proj1 (proj2 (calc_simplified_spec (-1) 4 3))). lra.
Defined.

(** C4: with [dp = 0] and valid [p, rho, kappa, D, d, C], [tau] is exactly
    1, the guard [math.isclose(tau, 1.0)] holds, and [calc_venturi] returns
    exactly 0.0. *)
Theorem calc_venturi_zero_dp (p rho kappa D d C : R) :
  0 < p -> 1 < kappa -> 0 < d < D ->
  Py.isclose (Flt (tau_of 0 p)) (Flt 1) = Ret true
  /\ calc_venturi 0 p rho kappa D d C = Ret (Flt 0).
Proof.
  intros Hp Hk Hd.
  assert (Ht : tau_of 0 p = 1) by (unfold tau_of; field; lra).
  assert (Hc : Py.isclose_b (tau_of 0 p) 1 = true)
    by (rewrite Ht; apply isclose_b_refl).
  split.
  - simpl. now rewrite Hc.
  - apply calc_venturi_guard; (assumption || lra).
Qed.

Lemma calc_venturi_zero_dp_witness :
  Py.isclose (Flt (tau_of 0 101325)) (Flt 1) = Ret true
  /\ calc_venturi 0 101325 (12 / 10) (14 / 10) (1 / 10) (5 / 100) (98 / 100)
     = Ret (Flt 0).
Proof.
  apply calc_venturi_zero_dp; lra.
Defined.



(** C10: [calc_simplified] is symmetric in its first two arguments: the
    result depends on [dp] and [rho] only through their product. *)
Theorem calc_simplified_sym (dp rho Cv : R) :
  calc_simplified dp rho Cv = calc_simplified rho dp Cv.
Proof.
  unfold calc_simplified. py_step. now rewrite (Rmult_comm dp rho).
Qed.

(** ** Monotonicity in [dp] *)






Lemma guard_off_positive dp p :
  0 < p -> p <= 9 * dp -> Py.isclose_b (tau_of dp p) 1 = false.
Proof.
  intros Hp Hdp. apply isclose_b_below.
  - apply tau_pos; lra.
  - unfold tau_of. apply Rmult_le_reg_r with (p + dp); [lra | ].
    unfold Rdiv. rewrite Rmult_assoc, Rinv_l by lra. lra.
Qed.







(** * The command line: facts *)

Section CommandLineFacts.

Import Argparse Cli Invocation.
Local Open Scope string_scope.
Local Open Scope list_scope.

Variable float_of : string -> option Q.


Lemma classify_fst p args toks :
  classify p args = inl toks -> map fst toks = args.
Proof.
  revert toks. induction args as [| a rest IH]; intros toks H; simpl in H.
  - now inversion H.
  - destruct (String.eqb a double_dash).
    + inversion H; subst; simpl. f_equal.
      rewrite map_map; simpl. apply map_id.
    + destruct (parse_optional p a); try discriminate;
        destruct (classify p rest) as [toks' | e] eqn:E; try discriminate;
        inversion H; subst; simpl; f_equal; now apply IH.
Qed.






End CommandLineFacts.

Section ConsumeFacts.

Import Argparse Cli Invocation.
Local Open Scope string_scope.
Local Open Scope list_scope.

Variable float_of : string -> option Q.
Variable p : parser.

(** induction on a list that may step over one or two elements *)
Lemma list_ind_two (A : Type) (P : list A -> Prop) :
  P [] ->
  (forall x l, P l -> (forall y l', l = y :: l' -> P l') -> P (x :: l)) ->
  forall l, P l.
Proof.
  intros Hnil Hcons l.
  enough (H : P l /\ (forall y l', l = y :: l' -> P l')) by apply H.
  induction l as [| x l [IH1 IH2]].
  - split; [assumption | discriminate].
  - split; [now apply Hcons | ]. intros y l' E. now inversion E; subst.
Qed.




End ConsumeFacts.

Section ParseFacts.

Import Argparse Cli Invocation.
Local Open Scope string_scope.
Local Open Scope list_scope.

Variable float_of : string -> option Q.









End ParseFacts.

(** * Printing: facts *)

Section PrintingFacts.

Import Argparse Cli Invocation.
Local Open Scope string_scope.











End PrintingFacts.

(** * The flow functions return floats *)



Ltac py_bind_inv H :=
  repeat match type of H with
    | bind ?c _ = Ret _ =>
        let E := fresh "E" in
        destruct c eqn:E; [cbn [bind] in H | discriminate H]
    | (if ?b then _ else _) = Ret _ => destruct b
    end.




(** * The command line: claims *)

Section CommandLineClaims.

Import Argparse Cli Invocation.
Local Open Scope string_scope.
Local Open Scope list_scope.













End CommandLineClaims.

(** * The flow model: further properties *)

(** ** What the operations return and raise *)

Lemma truediv_flt_inv x y v :
  Py.truediv (Flt x) (Flt y) = Ret v -> y <> 0 /\ v = Flt (x / y).
Proof.
  unfold Py.truediv, Req_b. destruct (Req_dec_T y 0); [discriminate | ].
  intros H; inversion H. now split.
Qed.

Lemma sqrt_ret_inv a v :
  Py.sqrt a = Ret v -> exists x, a = Flt x /\ 0 <= x /\ v = Flt (sqrt x).
Proof.
  destruct a as [x | ]; simpl; [ | discriminate].
  unfold Rlt_b. destruct (Rlt_dec x 0); [discriminate | ].
  intros H; inversion H. exists x. repeat split. lra.
Qed.

Lemma max_ret_inv a y m :
  Py.max a (Flt y) = Ret m -> exists x, a = Flt x /\ m = Flt (Rmax x y).
Proof.
  destruct a as [x | ]; [ | rewrite max_cpx; discriminate].
  rewrite max_flt. intros H; inversion H. now exists x.
Qed.

Lemma isclose_ret_inv a b c :
  Py.isclose a b = Ret c -> exists x y, a = Flt x /\ b = Flt y /\ c = Py.isclose_b x y.
Proof.
  destruct a as [x | ], b as [y | ]; simpl; try discriminate.
  intros H; inversion H. now exists x, y.
Qed.

Lemma truediv_raise a b e : Py.truediv a b = Raise e -> e = ZeroDivisionError.
Proof.
  unfold Py.truediv. destruct b as [y | ]; [ | discriminate].
  destruct (Req_b y 0); [now intros H; inversion H | destruct a; discriminate].
Qed.

Lemma pow_raise a b e : Py.pow a b = Raise e -> e = ZeroDivisionError.
Proof.
  unfold Py.pow. destruct a as [x | ], b as [y | ]; try discriminate.
  destruct (Req_b y 0); [discriminate | ].
  destruct (Req_b x 0).
  - destruct (Rlt_b y 0); [now intros H; inversion H | discriminate].
  - destruct (Rlt_b x 0); [ | discriminate].
    destruct (Py.is_integer y); discriminate.
Qed.

Lemma max_raise a b e : Py.max a b = Raise e -> e = TypeError.
Proof.
  unfold Py.max, Py.gt. destruct b, a; simpl; try discriminate;
    now intros H; inversion H.
Qed.

Lemma isclose_raise a b e : Py.isclose a b = Raise e -> e = TypeError.
Proof.
  unfold Py.isclose. destruct a, b; try discriminate; now intros H; inversion H.
Qed.

Lemma sqrt_raise_value a :
  Py.sqrt a = Raise ValueError -> exists x, a = Flt x /\ x < 0.
Proof.
  destruct a as [x | ]; simpl; [ | discriminate].
  unfold Rlt_b. destruct (Rlt_dec x 0); [ | discriminate].
  intros _. now exists x.
Qed.

(** the steps of a computation that ends in [Raise e]: each bound step
    returned, or is the one that raised *)
Ltac py_raise_inv H :=
  repeat match type of H with
    | bind ?c _ = Raise _ =>
        let E := fresh "E" in
        destruct c eqn:E; cbn [bind] in H
    | (if ?b then _ else _) = Raise _ => destruct b
    end.

(** replay recorded steps in the goal *)
Ltac py_replay :=
  cbn [bind];
  repeat (match goal with
          | E : ?c = Ret _ |- context [bind ?c _] => rewrite E
          end; cbn [bind]).

Ltac py_no_value_error :=
  match goal with
  | H : Ret _ = Raise _ |- _ => discriminate H
  | H : Raise ?e = Raise ValueError |- _ =>
      inversion H; subst;
      match goal with
      | E : Py.truediv _ _ = Raise ValueError |- _ =>
          apply truediv_raise in E; discriminate E
      | E : Py.pow _ _ = Raise ValueError |- _ =>
          apply pow_raise in E; discriminate E
      | E : Py.max _ _ = Raise ValueError |- _ =>
          apply max_raise in E; discriminate E
      | E : Py.isclose _ _ = Raise ValueError |- _ =>
          apply isclose_raise in E; discriminate E
      | E : Py.sqrt ?m = Raise ValueError, E' : Py.max _ (Flt ?y) = Ret ?m |- _ =>
          apply sqrt_raise_value in E; destruct E as (x & Hx & Hneg);
          apply max_ret_inv in E'; destruct E' as (z & _ & Hm);
          rewrite Hm in Hx; inversion Hx; subst;
          pose proof (Rmax_r z y); pose proof floor30_pos; lra
      end
  end.

(** X1: the clamps [max(..., 0.0)] and [max(..., 1e-30)] keep [math.sqrt] in
    its domain: [calc_venturi] never raises [ValueError], whatever the
    input; when it raises, it is [ZeroDivisionError] or [TypeError]. *)
Theorem calc_venturi_never_value_error (dp p rho kappa D d C : R) :
  calc_venturi dp p rho kappa D d C <> Raise ValueError.
Proof.
  intros H. unfold calc_venturi in H. py_raise_inv H; py_no_value_error.
Qed.

(** ** How the result depends on [C] and [rho] *)

(** when a call returns, so does every call that differs only in [rho] and
    [C], and the value is a fixed factor [e] (the expansibility) times
    [C / sqrt(max(1 - beta4, 1e-30)) * pi / 4 * d * d * sqrt(max(2 dp rho, 0))
    * 3600] *)
Lemma calc_venturi_factor dp p rho kappa D d C v :
  calc_venturi dp p rho kappa D d C = Ret v ->
  exists e : R,
    0 <= e /\
    forall rho' C' : R,
      calc_venturi dp p rho' kappa D d C'
      = Ret (Flt (C' / sqrt (Rmax (1 - beta4_of D d) floor30) * e * PI / 4
                  * d * d * sqrt (Rmax (dp * rho' * 2) 0) * 3600)).
Proof.
  intros H. unfold calc_venturi in H.
  destruct (Py.truediv (Flt d) (Flt D)) as [beta | ] eqn:Eb; [ | discriminate].
  cbn [bind] in H.
  destruct (truediv_flt_inv _ _ _ Eb) as [HD ->].
  rewrite pow_4 in H. cbn [bind] in H.
  py_bind_inv H.
  - exists 0. split; [lra | ]. intros rho' C'. unfold calc_venturi.
    rewrite Eb. cbn [bind]. rewrite pow_4. cbn [bind]. py_replay.
    do 2 f_equal. unfold Rdiv. ring.
  - match goal with
    | En : Py.truediv _ _ = Ret ?n, Em : Py.max ?n (Flt 0) = Ret ?m,
      Ee : Py.sqrt ?m = Ret _ |- _ =>
        destruct (sqrt_ret_inv _ _ Ee) as (x & _ & Hx & Heps)
    end.
    match goal with
    | Em : Py.max _ (Flt floor30) = Ret ?b, Es : Py.sqrt ?b = Ret ?sb |- _ =>
        destruct (max_ret_inv _ _ _ Em) as (z & Hz & Hb);
        cbn [Py.sub] in Hz; inversion Hz; subst z; subst b;
        destruct (sqrt_ret_inv _ _ Es) as (y & Hy & _ & Hs);
        inversion Hy; subst y; subst sb; clear Em Es Hz Hy
    end.
    exists (sqrt x). split; [apply sqrt_pos | ].
    intros rho' C'. unfold calc_venturi.
    rewrite Eb. cbn [bind]. rewrite pow_4. cbn [bind]. py_replay.
    subst. cbn [bind Py.add Py.sub Py.mul Py.pi].
    rewrite !max_flt. cbn [bind]. rewrite sqrt_max0. cbn [bind].
    rewrite sqrt_flt
      by (pose proof floor30_pos; pose proof (Rmax_r (1 - (d / D) ^ 4) floor30); lra).
    cbn [bind].
    rewrite truediv_flt by (pose proof (sqrt_max_floor (1 - (d / D) ^ 4)); lra).
    cbn [bind Py.mul Py.pi].
    rewrite truediv_flt by lra. cbn [bind Py.mul].
    reflexivity.
Qed.

(** X2: the discharge coefficient is a plain factor: when a call returns
    [v], the call with [C] replaced by [k * C] returns [k * v]. *)
Theorem calc_venturi_linear_in_C (dp p rho kappa D d C v k : R) :
  calc_venturi dp p rho kappa D d C = Ret (Flt v) ->
  calc_venturi dp p rho kappa D d (k * C) = Ret (Flt (k * v)).
Proof.
  intros H. destruct (calc_venturi_factor _ _ _ _ _ _ _ _ H) as (e & _ & He).
  rewrite (He rho C) in H. inversion H; subst v.
  rewrite (He rho (k * C)). do 2 f_equal. unfold Rdiv. ring.
Qed.

Lemma calc_venturi_linear_in_C_witness :
  calc_venturi 1 1 1 2 2 1 (3 * 1)
  = Ret (Flt (3 * (mass_flow_of 1 1 1 2 2 1 1 * 3600))).
Proof.
  apply calc_venturi_linear_in_C.
  assert (Hd : 0 < 1 < 2) by lra.
  apply calc_venturi_regular; try lra.
  - apply guard_off_positive; lra.
  - apply tau_pos; lra.
  - apply (regular_of_nonneg_dp 1 1 2 2 1 Hd); lra.
Defined.

(** X3: the density enters through [sqrt(max(dp * rho * 2, 0))] only: when
    a call returns [v], the call with [rho] replaced by [k * rho], [k >= 0],
    returns [sqrt k * v]. *)
Theorem calc_venturi_sqrt_in_rho (dp p rho kappa D d C v k : R) :
  0 <= k ->
  calc_venturi dp p rho kappa D d C = Ret (Flt v) ->
  calc_venturi dp p (k * rho) kappa D d C = Ret (Flt (sqrt k * v)).
Proof.
  intros Hk H. destruct (calc_venturi_factor _ _ _ _ _ _ _ _ H) as (e & _ & He).
  rewrite (He rho C) in H. inversion H; subst v.
  rewrite (He (k * rho) C). do 2 f_equal.
  assert (Hm : Rmax (dp * (k * rho) * 2) 0 = k * Rmax (dp * rho * 2) 0).
  { replace (dp * (k * rho) * 2) with (k * (dp * rho * 2)) by ring.
    replace 0 with (k * 0) at 1 by ring.
    now rewrite RmaxRmult. }
  rewrite Hm, sqrt_mult by (assumption || apply Rmax_r).
  unfold Rdiv. ring.
Qed.

Lemma calc_venturi_sqrt_in_rho_witness :
  calc_venturi 1 1 (4 * 1) 2 2 1 1
  = Ret (Flt (sqrt 4 * (mass_flow_of 1 1 1 2 2 1 1 * 3600))).
Proof.
  apply calc_venturi_sqrt_in_rho; [lra | ].
  assert (Hd : 0 < 1 < 2) by lra.
  apply calc_venturi_regular; try lra.
  - apply guard_off_positive; lra.
  - apply tau_pos; lra.
  - apply (regular_of_nonneg_dp 1 1 2 2 1 Hd); lra.
Defined.



(** ** How the result depends on the diameters *)

(** X5: geometric similarity: scaling both diameters by [k <> 0] leaves
    [beta] unchanged and multiplies the throat area, and so the returned
    value, by [k * k]. *)
Theorem calc_venturi_scales_with_area (dp p rho kappa D d C v k : R) :
  k <> 0 ->
  calc_venturi dp p rho kappa D d C = Ret (Flt v) ->
  calc_venturi dp p rho kappa (k * D) (k * d) C = Ret (Flt (k * k * v)).
Proof.
  intros Hk H. unfold calc_venturi in H.
  destruct (Py.truediv (Flt d) (Flt D)) as [beta | ] eqn:Eb; [ | discriminate].
  cbn [bind] in H.
  destruct (truediv_flt_inv _ _ _ Eb) as [HD ->].
  rewrite pow_4 in H. cbn [bind] in H.
  unfold calc_venturi.
  rewrite truediv_flt by (apply Rmult_integral_contrapositive_currified; assumption).
  cbn [bind]. rewrite pow_4. cbn [bind].
  replace (k * d / (k * D)) with (d / D) by (field; now split).
  py_bind_inv H.
  - py_replay. inversion H. do 2 f_equal. ring.
  - py_replay.
    match type of H with
    | Ret (Py.mul (Py.mul (Py.mul (Py.mul ?q _) _) ?r) _) = _ =>
        destruct q, r; cbn [Py.mul] in H |- *; try discriminate H
    end.
    inversion H. do 2 f_equal. ring.
Qed.

Lemma calc_venturi_scales_with_area_witness :
  calc_venturi 1 1 1 2 (3 * 2) (3 * 1) 1
  = Ret (Flt (3 * 3 * (mass_flow_of 1 1 1 2 2 1 1 * 3600))).
Proof.
  apply calc_venturi_scales_with_area; [lra | ].
  assert (Hd : 0 < 1 < 2) by lra.
  apply calc_venturi_regular; try lra.
  - apply guard_off_positive; lra.
  - apply tau_pos; lra.
  - apply (regular_of_nonneg_dp 1 1 2 2 1 Hd); lra.
Defined.

Lemma bind_ext (A B : Type) (c : res A) (k k' : A -> res B) :
  (forall a, k a = k' a) -> bind c k = bind c k'.
Proof. intros H. destruct c; simpl; [apply H | reflexivity]. Qed.

(** the part of [calc_venturi] after [beta4] sees [d] only as the factor
    [d * d] *)
Lemma mul_square_sign (q r : num) (d : R) :
  (q * Flt (- d) * Flt (- d) * r * Flt 3600)%py
  = (q * Flt d * Flt d * r * Flt 3600)%py.
Proof.
  destruct q, r; cbn [Py.mul]; try reflexivity. f_equal. ring.
Qed.

(** X6: the signs of the diameters are ignored: [calc_venturi] gives the
    same result, or raises the same exception, for [- d] as for [d] and
    for [- D] as for [D]; a negative diameter is never rejected. *)
Theorem calc_venturi_even_in_diameters (dp p rho kappa D d C : R) :
  calc_venturi dp p rho kappa D (- d) C = calc_venturi dp p rho kappa D d C
  /\ calc_venturi dp p rho kappa (- D) d C = calc_venturi dp p rho kappa D d C.
Proof.
  split; unfold calc_venturi.
  - destruct (Req_dec_T D 0) as [-> | HD].
    { rewrite (truediv_zero (Flt (- d))), (truediv_zero (Flt d)).
      cbn [bind]. reflexivity. }
    rewrite (truediv_flt (- d) D), (truediv_flt d D) by assumption.
    cbn [bind]. rewrite !pow_4. cbn [bind].
    replace ((- d / D) ^ 4) with ((d / D) ^ 4) by (field; assumption).
    repeat (apply bind_ext; intros ?; try match goal with
              | |- (if ?c then _ else _) = _ => destruct c; [reflexivity | ]
              end).
    f_equal. apply mul_square_sign.
  - destruct (Req_dec_T D 0) as [-> | HD].
    + replace (- 0) with 0 by ring. reflexivity.
    + rewrite (truediv_flt d (- D)), (truediv_flt d D) by lra.
      cbn [bind]. rewrite !pow_4. cbn [bind].
      replace ((d / - D) ^ 4) with ((d / D) ^ 4) by (field; lra).
      reflexivity.
Qed.

(** ** The guard band *)









(** ** The simplified model *)





(** * The command line: further properties *)

Section AcceptedCommandLines.

Import Argparse Cli Invocation Reading.
Local Open Scope string_scope.
Local Open Scope list_scope.

Variable float_of : string -> option Q.



End AcceptedCommandLines.


Section Outcomes.

Import Argparse Cli Invocation Reading.
Local Open Scope string_scope.
Local Open Scope list_scope.

Variable float_of : string -> option Q.

Lemma help_exit_success p : is_success_exit (help_exit p).
Proof.
  unfold is_success_exit, help_exit, format_usage; cbn [exit_code stdout stderr].
  repeat split. cbn [append]. discriminate.
Qed.

Lemma error_failure p message : is_failure_exit (error p message).
Proof.
  unfold is_failure_exit, error; cbn [exit_code stdout stderr].
  repeat split; [now right | ]. unfold format_usage. cbn [append]. discriminate.
Qed.

Lemma help_with_explicit_exit p os e :
  is_success_exit (help_with_explicit p os e)
  \/ is_failure_exit (help_with_explicit p os e).
Proof.
  unfold help_with_explicit.
  destruct (_ && _); [left; apply help_exit_success | right; apply error_failure].
Qed.

Lemma consume_stop_exit p toks :
  forall ns extras o,
    consume float_of p toks ns extras = Stop o ->
    is_success_exit o \/ is_failure_exit o.
Proof.
  induction toks as [| [a pat] rest IH IH2] using list_ind_two;
    intros ns extras o H; simpl in H.
  - discriminate.
  - destruct pat as [ | | [[ | dest] | ] os [e | ]];
      try (now apply (IH _ _ _ H)).
    + inversion H; subst. apply help_with_explicit_exit.
    + inversion H; subst. left. apply help_exit_success.
    + destruct (store float_of p os dest e ns) as [ns' | o'] eqn:Hs.
      * now apply (IH _ _ _ H).
      * inversion H; subst. unfold store in Hs.
        destruct (float_of e); [discriminate | ].
        inversion Hs; subst. right. apply error_failure.
    + destruct rest as [| [v [ | | ]] rest'];
        try (inversion H; subst; right; apply error_failure).
      destruct (store float_of p os dest v ns) as [ns' | o'] eqn:Hs.
      * apply (IH2 _ _ eq_refl _ _ _ H).
      * inversion H; subst. unfold store in Hs.
        destruct (float_of v); [discriminate | ].
        inversion Hs; subst. right. apply error_failure.
Qed.

Lemma find_command_halt_exit p toks :
  forall extras o,
    find_command p toks extras = Halt o ->
    is_success_exit o \/ is_failure_exit o.
Proof.
  induction toks as [| [a pat] rest IH]; intros extras o H; simpl in H.
  - discriminate.
  - destruct pat as [ | | [[ | dest] | ] os [e | ]]; try discriminate.
    + destruct rest; discriminate.
    + inversion H; subst. apply help_with_explicit_exit.
    + inversion H; subst. left. apply help_exit_success.
    + inversion H; subst. right. apply error_failure.
    + inversion H; subst. right. apply error_failure.
    + now apply (IH _ _ H).
    + now apply (IH _ _ H).
Qed.

Lemma parse_args_exit prog args o :
  parse_args float_of prog args = Exit o ->
  is_success_exit o \/ is_failure_exit o.
Proof.
  unfold parse_args. intros H.
  destruct (classify (top_parser prog) args) as [toks0 | ] eqn:Hc.
  2:{ inversion H; subst. right. apply error_failure. }
  destruct (find_command (top_parser prog) toks0 [])
    as [name rest extras | | o'] eqn:Hf.
  3:{ inversion H; subst. now apply (find_command_halt_exit _ _ _ _ Hf). }
  2:{ inversion H; subst. right. apply error_failure. }
  destruct (lookup name (subparsers prog)) as [sub | ] eqn:Hl.
  2:{ inversion H; subst. right. apply error_failure. }
  unfold parse_known_args in H.
  destruct (classify sub rest) as [toks | ] eqn:Hc'.
  2:{ inversion H; subst. right. apply error_failure. }
  destruct (consume float_of sub toks [] []) as [ns0 extras' | o'] eqn:Hcons.
  2:{ inversion H; subst. now apply (consume_stop_exit _ _ _ _ _ Hcons). }
  destruct (missing_required sub ns0) as [| m ms] eqn:Hm.
  2:{ inversion H; subst. right. apply error_failure. }
  destruct (extras ++ extras'); [discriminate | ].
  inversion H; subst. right. apply error_failure.
Qed.

(** X12: every run ends in one of two ways: exit status 0 with text on the
    output stream and an empty error stream, or exit status 1 or 2 with an
    empty output stream and a message on the error stream.  The program
    never writes to both streams, and never leaves output behind when it
    fails. *)
Theorem main_outcome (prog : string) (args : list string) :
  is_success_exit (main float_of prog args)
  \/ is_failure_exit (main float_of prog args).
Proof.
  unfold main.
  destruct (parse_args float_of prog args) as [command ns | o] eqn:Hp.
  - destruct (run_command command ns) as [v | e].
    + left. unfold is_success_exit; cbn [exit_code stdout stderr].
      repeat split. destruct (format_value v); discriminate.
    + right. unfold is_failure_exit, uncaught; cbn [exit_code stdout stderr].
      repeat split; [now left | discriminate].
  - exact (parse_args_exit prog args o Hp).
Qed.

End Outcomes.

Section CanonicalCommandLines.

Import Argparse Cli Invocation Reading.
Local Open Scope string_scope.
Local Open Scope list_scope.

Variable float_of : string -> option Q.

(** the top-level parser has one long option: no abbreviation is
    ambiguous for it *)
Lemma get_option_tuples_top prog c1 r :
  (List.length (get_option_tuples (top_parser prog) (String "-" (String c1 r)))
   <= 1)%nat.
Proof.
  unfold get_option_tuples.
  cbn [option_string_actions top_parser flat_map app].
  destruct (Ascii.eqb c1 "-") eqn:E1.
  - apply Ascii.eqb_eq in E1; subst c1. cbn [split_at].
    replace (Ascii.eqb "-" "=") with false by reflexivity.
    destruct (split_at "=" r) as [[x y] | ].
    + replace (prefix (String "-" (String "-" x)) "-h") with false
        by reflexivity.
      destruct (prefix (String "-" (String "-" x)) "--help"); simpl; lia.
    + replace (prefix (String "-" (String "-" r)) "-h") with false
        by reflexivity.
      destruct (prefix (String "-" (String "-" r)) "--help"); simpl; lia.
  - assert (E2 : String.eqb "--help" (substring 0 2 (String "-" (String c1 r)))
                 = false).
    { cbn [substring String.eqb]. rewrite (Ascii.eqb_sym "-" c1), E1.
      now destruct (Ascii.eqb "-" "-"). }
    assert (E3 : prefix (String "-" (String c1 r)) "--help" = false).
    { cbn [prefix]. destruct (ascii_dec "-" "-"); [ | reflexivity].
      destruct (ascii_dec c1 "-") as [-> | ]; [ | reflexivity].
      now rewrite Ascii.eqb_refl in E1. }
    rewrite E2, E3.
    destruct (String.eqb "-h" _); [simpl; lia | ].
    destruct (prefix _ "-h"); simpl; lia.
Qed.

Lemma top_never_ambiguous prog a ms :
  parse_optional (top_parser prog) a <> Ambiguous ms.
Proof.
  unfold parse_optional. destruct a as [| c0 rest0]; [discriminate | ].
  destruct (Ascii.eqb c0 "-") eqn:E0; cbn [negb]; [ | discriminate].
  apply Ascii.eqb_eq in E0; subst c0.
  destruct (lookup _ _); [discriminate | ].
  destruct rest0 as [| c1 r]; cbn [nonempty negb]; [discriminate | ].
  destruct (split_at "=" (String "-" (String c1 r))) as [[os e] | ].
  - destruct (lookup os _); [discriminate | ].
    pose proof (get_option_tuples_top prog c1 r) as Hlen.
    destruct (get_option_tuples _ _) as [| [[a' os'] e'] [| t2 l]];
      try discriminate; [ | simpl in Hlen; lia].
    destruct (negative_number_like _); [discriminate | ].
    destruct (contains _ _); discriminate.
  - pose proof (get_option_tuples_top prog c1 r) as Hlen.
    destruct (get_option_tuples _ _) as [| [[a' os'] e'] [| t2 l]];
      try discriminate; [ | simpl in Hlen; lia].
    destruct (negative_number_like _); [discriminate | ].
    destruct (contains _ _); discriminate.
Qed.

(** the first pass of the top-level parser never fails *)
Lemma classify_top_total prog args :
  exists toks, classify (top_parser prog) args = inl toks.
Proof.
  induction args as [| a rest [toks IH]]; simpl; [now eexists | ].
  destruct (String.eqb a double_dash); [now eexists | ].
  destruct (parse_optional (top_parser prog) a) eqn:Ha.
  - rewrite IH. now eexists.
  - rewrite IH. now eexists.
  - now apply top_never_ambiguous in Ha.
Qed.

Lemma is_value_inv p a :
  is_value p a = true ->
  String.eqb a double_dash = false /\ parse_optional p a = Positional.
Proof.
  unfold is_value. intros H. apply andb_true_iff in H. destruct H as [H1 H2].
  split; [now apply negb_true_iff in H1 | ].
  destruct (parse_optional p a); (reflexivity || discriminate).
Qed.

(** the first pass over [--flag text] *)
Lemma classify_flag_value p f act os a rest toks :
  String.eqb f double_dash = false ->
  parse_optional p f = Optional act os None ->
  is_value p a = true ->
  classify p rest = inl toks ->
  classify p (f :: a :: rest) = inl ((f, PO act os None) :: (a, PA) :: toks).
Proof.
  intros Hf Hp Ha Hr. destruct (is_value_inv _ _ Ha) as [Ha1 Ha2].
  cbn [classify]. now rewrite Hf, Hp, Ha1, Ha2, Hr.
Qed.

(** the consumption of [--flag text] with a numeric text *)
Lemma consume_flag_value p f d os a toks ns extras q :
  float_of a = Some q ->
  consume float_of p ((f, PO (Some (StoreFloat d)) os None) :: (a, PA) :: toks)
    ns extras
  = consume float_of p toks (setattr ns d q) extras.
Proof. intros H. cbn [consume]. unfold store. now rewrite H. Qed.

(** what is left of [parse_args] once the sub-command is found at the head
    of the command line *)
Lemma parse_args_command prog name sub rest :
  String.eqb name double_dash = false ->
  parse_optional (top_parser prog) name = Positional ->
  lookup name (subparsers prog) = Some sub ->
  parse_args float_of prog (name :: rest)
  = match parse_known_args float_of sub rest with
    | Stop o => Exit o
    | Done ns extras' =>
        match missing_required sub ns with
        | (_ :: _) as ms =>
            Exit (error sub ("the following arguments are required: "
                             ++ String.concat ", " ms))
        | [] =>
            match extras' with
            | [] => Namespace name ns
            | (_ :: _) as ex =>
                Exit (error (top_parser prog)
                        ("unrecognized arguments: " ++ String.concat " " ex))
            end
        end
    end.
Proof.
  intros Hn Hp Hl. unfold parse_args.
  destruct (classify_top_total prog rest) as [toks Hc].
  cbn [classify]. rewrite Hn, Hp, Hc. cbn [find_command].
  rewrite (classify_fst _ _ _ Hc), Hl.
  destruct (parse_known_args float_of sub rest) as [ns extras' | o];
    [ | reflexivity].
  destruct (missing_required sub ns); [ | reflexivity].
  cbn [app]. destruct extras'; reflexivity.
Qed.

(** the run of [main] on the documented form of the Venturi command line *)
Lemma venturi_command_line_run (prog : string)
    (t_dp t_p t_rho t_kappa t_D t_d t_C : string)
    (dp p rho kappa D d C : Q) :
  let sub := venturi_parser prog in
  is_value sub t_dp = true -> is_value sub t_p = true ->
  is_value sub t_rho = true -> is_value sub t_kappa = true ->
  is_value sub t_D = true -> is_value sub t_d = true ->
  is_value sub t_C = true ->
  float_of t_dp = Some dp -> float_of t_p = Some p ->
  float_of t_rho = Some rho -> float_of t_kappa = Some kappa ->
  float_of t_D = Some D -> float_of t_d = Some d -> float_of t_C = Some C ->
  main float_of prog
    ["venturi"; "--dp"; t_dp; "--p"; t_p; "--rho"; t_rho; "--kappa"; t_kappa;
     "--D"; t_D; "--d"; t_d; "--C"; t_C]
  = report (calc_venturi (Q2R dp) (Q2R p) (Q2R rho) (Q2R kappa)
              (Q2R D) (Q2R d) (Q2R C)).
Proof.
  intros sub V1 V2 V3 V4 V5 V6 V7 F1 F2 F3 F4 F5 F6 F7.
  unfold main.
  rewrite (parse_args_command prog "venturi" sub) by reflexivity.
  unfold parse_known_args.
  rewrite (classify_flag_value sub "--dp" _ _ t_dp _ _ eq_refl eq_refl V1
             (classify_flag_value sub "--p" _ _ t_p _ _ eq_refl eq_refl V2
             (classify_flag_value sub "--rho" _ _ t_rho _ _ eq_refl eq_refl V3
             (classify_flag_value sub "--kappa" _ _ t_kappa _ _ eq_refl eq_refl V4
             (classify_flag_value sub "--D" _ _ t_D _ _ eq_refl eq_refl V5
             (classify_flag_value sub "--d" _ _ t_d _ _ eq_refl eq_refl V6
             (classify_flag_value sub "--C" _ _ t_C [] _ eq_refl eq_refl V7
                eq_refl))))))).
  rewrite (consume_flag_value _ _ _ _ _ _ _ _ _ F1),
    (consume_flag_value _ _ _ _ _ _ _ _ _ F2),
    (consume_flag_value _ _ _ _ _ _ _ _ _ F3),
    (consume_flag_value _ _ _ _ _ _ _ _ _ F4),
    (consume_flag_value _ _ _ _ _ _ _ _ _ F5),
    (consume_flag_value _ _ _ _ _ _ _ _ _ F6),
    (consume_flag_value _ _ _ _ _ _ _ _ _ F7).
  reflexivity.
Qed.

(** X13: the documented form of the Venturi command line: with each flag
    once, in the documented order, followed by a text that is a value (not
    taken for an option) and that [float] reads as a number, [main] calls
    [calc_venturi] on the seven numbers in the order of its parameters and
    prints the result, or ends with the traceback of what it raises. *)
Theorem main_venturi_command_line (prog : string)
    (t_dp t_p t_rho t_kappa t_D t_d t_C : string)
    (dp p rho kappa D d C : Q) :
  let sub := venturi_parser prog in
  is_value sub t_dp = true -> is_value sub t_p = true ->
  is_value sub t_rho = true -> is_value sub t_kappa = true ->
  is_value sub t_D = true -> is_value sub t_d = true ->
  is_value sub t_C = true ->
  float_of t_dp = Some dp -> float_of t_p = Some p ->
  float_of t_rho = Some rho -> float_of t_kappa = Some kappa ->
  float_of t_D = Some D -> float_of t_d = Some d -> float_of t_C = Some C ->
  main float_of prog
    ["venturi"; "--dp"; t_dp; "--p"; t_p; "--rho"; t_rho; "--kappa"; t_kappa;
     "--D"; t_D; "--d"; t_d; "--C"; t_C]
  = report (calc_venturi (Q2R dp) (Q2R p) (Q2R rho) (Q2R kappa)
              (Q2R D) (Q2R d) (Q2R C)).
Proof. exact (venturi_command_line_run prog t_dp t_p t_rho t_kappa t_D t_d t_C
                dp p rho kappa D d C). Qed.

(** X14: the documented form of the simplified command line, in the same
    way: [main] calls [calc_simplified] on the three numbers and prints
    the result. *)
Theorem main_simplified_command_line (prog : string)
    (t_dp t_rho t_Cv : string) (dp rho Cv : Q) :
  let sub := simplified_parser prog in
  is_value sub t_dp = true -> is_value sub t_rho = true ->
  is_value sub t_Cv = true ->
  float_of t_dp = Some dp -> float_of t_rho = Some rho ->
  float_of t_Cv = Some Cv ->
  main float_of prog ["simplified"; "--dp"; t_dp; "--rho"; t_rho; "--Cv"; t_Cv]
  = report (calc_simplified (Q2R dp) (Q2R rho) (Q2R Cv)).
Proof.
  intros sub V1 V2 V3 F1 F2 F3.
  unfold main.
  rewrite (parse_args_command prog "simplified" sub) by reflexivity.
  unfold parse_known_args.
  rewrite (classify_flag_value sub "--dp" _ _ t_dp _ _ eq_refl eq_refl V1
             (classify_flag_value sub "--rho" _ _ t_rho _ _ eq_refl eq_refl V2
             (classify_flag_value sub "--Cv" _ _ t_Cv [] _ eq_refl eq_refl V3
                eq_refl))).
  rewrite (consume_flag_value _ _ _ _ _ _ _ _ _ F1),
    (consume_flag_value _ _ _ _ _ _ _ _ _ F2),
    (consume_flag_value _ _ _ _ _ _ _ _ _ F3).
  reflexivity.
Qed.

(** X15: [-h] as the first argument prints the usage of the program and
    exits with status 0, whatever follows it: the rest of the command line
    is not examined for errors. *)
Theorem main_help_first (prog : string) (rest : list string) :
  main float_of prog ("-h" :: rest) = help_exit (top_parser prog).
Proof.
  unfold main, parse_args.
  destruct (classify_top_total prog rest) as [toks Hc].
  cbn [classify].
  replace (String.eqb "-h" double_dash) with false by reflexivity.
  replace (parse_optional (top_parser prog) "-h")
    with (Optional (Some HelpAction) "-h" None) by reflexivity.
  rewrite Hc. reflexivity.
Qed.

End CanonicalCommandLines.

(** callers of the two documented command lines *)
Lemma main_venturi_command_line_witness :
  Cli.main Cli.read_decimal "prog"
    ["venturi"; "--dp"; "5000"; "--p"; "101325"; "--rho"; "1.2";
     "--kappa"; "1.4"; "--D"; "0.1"; "--d"; "0.05"; "--C"; "0.98"]%string
  = Reading.report
      (calc_venturi (Q2R (inject_Z 5000)) (Q2R (inject_Z 101325))
         (Q2R (Qmake 12 10)) (Q2R (Qmake 14 10)) (Q2R (Qmake 1 10))
         (Q2R (Qmake 5 100)) (Q2R (Qmake 98 100))).
Proof.
  apply (main_venturi_command_line Cli.read_decimal "prog");
    vm_compute; reflexivity.
Defined.

Lemma main_simplified_command_line_witness :
  Cli.main Cli.read_decimal "prog"
    ["simplified"; "--dp"; "1000"; "--rho"; "800"; "--Cv"; "0.002"]%string
  = Reading.report
      (calc_simplified (Q2R (inject_Z 1000)) (Q2R (inject_Z 800))
         (Q2R (Qmake 2 1000))).
Proof.
  apply (main_simplified_command_line Cli.read_decimal "prog");
    vm_compute; reflexivity.
Defined.

(** * Printing and reading back *)

Section PrintRead.

Import Argparse Cli Invocation.
Local Open Scope string_scope.













End PrintRead.

(** * Further properties of whole runs *)

Section WholeRuns.

Import Argparse Cli Invocation Reading.
Local Open Scope string_scope.
Local Open Scope list_scope.

Variable float_of : string -> option Q.







End WholeRuns.

(** * The [--flag=value] form *)

Section EqualsForm.

Import Argparse Cli Invocation Reading.
Local Open Scope list_scope.
Local Open Scope string_scope.

Variable float_of : string -> option Q.

(** the first pass over [--flag=text] *)
Lemma classify_equals p f act os e rest toks :
  String.eqb f double_dash = false ->
  parse_optional p f = Optional act os (Some e) ->
  classify p rest = inl toks ->
  classify p (f :: rest) = inl ((f, PO act os (Some e)) :: toks).
Proof. intros Hf Hp Hr. cbn [classify]. now rewrite Hf, Hp, Hr. Qed.

(** the consumption of [--flag=text] with a numeric text *)
Lemma consume_equals p f d os e toks ns extras q :
  float_of e = Some q ->
  consume float_of p ((f, PO (Some (StoreFloat d)) os (Some e)) :: toks)
    ns extras
  = consume float_of p toks (setattr ns d q) extras.
Proof. intros H. cbn [consume]. unfold store. now rewrite H. Qed.

(** X20: in the form [--flag=text] the text is handed to [float] as it
    is, whatever its first character: when [float] reads the seven texts,
    the Venturi command line reports the flow of the seven numbers, and
    likewise for the three flags of [simplified]. *)
Theorem main_equals_form (prog : string)
    (t_dp t_p t_rho t_kappa t_D t_d t_C t_Cv : string)
    (dp p rho kappa D d C Cv : Q) :
  float_of t_dp = Some dp -> float_of t_p = Some p ->
  float_of t_rho = Some rho -> float_of t_kappa = Some kappa ->
  float_of t_D = Some D -> float_of t_d = Some d -> float_of t_C = Some C ->
  float_of t_Cv = Some Cv ->
  main float_of prog
    ["venturi"; "--dp=" ++ t_dp; "--p=" ++ t_p; "--rho=" ++ t_rho;
     "--kappa=" ++ t_kappa; "--D=" ++ t_D; "--d=" ++ t_d; "--C=" ++ t_C]
  = report (calc_venturi (Q2R dp) (Q2R p) (Q2R rho) (Q2R kappa)
              (Q2R D) (Q2R d) (Q2R C))
  /\ main float_of prog
       ["simplified"; "--dp=" ++ t_dp; "--rho=" ++ t_rho; "--Cv=" ++ t_Cv]
     = report (calc_simplified (Q2R dp) (Q2R rho) (Q2R Cv)).
Proof.
  intros F1 F2 F3 F4 F5 F6 F7 F8. split.
  - unfold main.
    rewrite (parse_args_command float_of prog "venturi" (venturi_parser prog))
      by reflexivity.
    unfold parse_known_args.
    rewrite (classify_equals (venturi_parser prog) ("--dp=" ++ t_dp) _ _ _ _ _
               eq_refl eq_refl
            (classify_equals (venturi_parser prog) ("--p=" ++ t_p) _ _ _ _ _
               eq_refl eq_refl
            (classify_equals (venturi_parser prog) ("--rho=" ++ t_rho) _ _ _ _ _
               eq_refl eq_refl
            (classify_equals (venturi_parser prog) ("--kappa=" ++ t_kappa)
               _ _ _ _ _ eq_refl eq_refl
            (classify_equals (venturi_parser prog) ("--D=" ++ t_D) _ _ _ _ _
               eq_refl eq_refl
            (classify_equals (venturi_parser prog) ("--d=" ++ t_d) _ _ _ _ _
               eq_refl eq_refl
            (classify_equals (venturi_parser prog) ("--C=" ++ t_C) _ _ _ [] _
               eq_refl eq_refl eq_refl))))))).
    rewrite (consume_equals _ _ _ _ _ _ _ _ _ F1),
      (consume_equals _ _ _ _ _ _ _ _ _ F2),
      (consume_equals _ _ _ _ _ _ _ _ _ F3),
      (consume_equals _ _ _ _ _ _ _ _ _ F4),
      (consume_equals _ _ _ _ _ _ _ _ _ F5),
      (consume_equals _ _ _ _ _ _ _ _ _ F6),
      (consume_equals _ _ _ _ _ _ _ _ _ F7).
    reflexivity.
  - unfold main.
    rewrite (parse_args_command float_of prog "simplified"
               (simplified_parser prog)) by reflexivity.
    unfold parse_known_args.
    rewrite (classify_equals (simplified_parser prog) ("--dp=" ++ t_dp)
               _ _ _ _ _ eq_refl eq_refl
            (classify_equals (simplified_parser prog) ("--rho=" ++ t_rho)
               _ _ _ _ _ eq_refl eq_refl
            (classify_equals (simplified_parser prog) ("--Cv=" ++ t_Cv)
               _ _ _ [] _ eq_refl eq_refl eq_refl))).
    rewrite (consume_equals _ _ _ _ _ _ _ _ _ F1),
      (consume_equals _ _ _ _ _ _ _ _ _ F3),
      (consume_equals _ _ _ _ _ _ _ _ _ F8).
    reflexivity.
Qed.

End EqualsForm.




Lemma main_equals_form_witness :
  Cli.main Cli.read_decimal "prog"
    ["venturi"; "--dp=-5000"; "--p=101325"; "--rho=1.2"; "--kappa=1.4";
     "--D=0.1"; "--d=0.05"; "--C=0.98"]%string
  = Reading.report
      (calc_venturi (Q2R (Qopp (inject_Z 5000))) (Q2R (inject_Z 101325))
         (Q2R (Qmake 12 10)) (Q2R (Qmake 14 10)) (Q2R (Qmake 1 10))
         (Q2R (Qmake 5 100)) (Q2R (Qmake 98 100)))
  /\ Cli.main Cli.read_decimal "prog"
       ["simplified"; "--dp=-5000"; "--rho=1.2"; "--Cv=0.002"]%string
     = Reading.report
         (calc_simplified (Q2R (Qopp (inject_Z 5000))) (Q2R (Qmake 12 10))
            (Q2R (Qmake 2 1000))).
Proof.
  apply (main_equals_form Cli.read_decimal "prog" "-5000" "101325" "1.2"
           "1.4" "0.1" "0.05" "0.98" "0.002");
    vm_compute; reflexivity.
Defined.
